(** * The infinite-scroll feed hook ([useInfiniteFeed])

    A shallow embedding of the feed paginator of the site: the placeholder
    generator, the fetch handler, the scroll-contingent loader and the
    memoised merge of the fetched pages, together with a small model of the
    query library the hook is written against. *)

From Stdlib Require Import QArith.
From stdpp Require Import base option list strings pretty.

Set Default Proof Using "Type".
Local Open Scope Z_scope.

(** ** JavaScript values the hook relies on *)

(** What a [throw] carries. [Error] is the constructor the handler calls
    itself; the others are raised by the platform ([Array], [fetch],
    [Response.json]). *)
Inductive JsError : Type :=
  | Error (message : string)
  | RangeError
  | TypeError
  | SyntaxError.

(** An evaluation either completes with a value or throws. *)
Inductive Completion (A : Type) : Type :=
  | Normal (a : A)
  | Throw (e : JsError).
Arguments Normal {A} a.
Arguments Throw {A} e.

#[global] Instance Completion_ret : MRet Completion := @Normal.
#[global] Instance Completion_bind : MBind Completion := λ A B f m,
  match m with
  | Normal a => f a
  | Throw e => Throw e
  end.

Definition completes {A} (c : Completion A) : Prop := ∃ a, c = Normal a.

(** [a || b] on an optional number: [undefined] and [0] are falsy. *)
Definition number_or (a : option Z) (b : Z) : Z :=
  match a with
  | Some n => if bool_decide (n = 0) then b else n
  | None => b
  end.

(** [Array(len)]: [len] empty slots, a [RangeError] unless [len] is an
    array length (an integer between 0 and 2^32 - 1). *)
Definition Array_ (len : Z) : Completion (list (option Z)) :=
  if bool_decide (0 ≤ len < 2 ^ 32)
  then Normal (replicate (Z.to_nat len) None)
  else Throw RangeError.

(** [arr.fill(v)] *)
Definition fill (v : Z) (arr : list (option Z)) : list Z := (λ _, v) <$> arr.

(** The template literal [`${keyPrefix}-${idx}`]. *)
Definition placeholderKey (keyPrefix : string) (idx : nat) : string :=
  keyPrefix +:+ "-" +:+ pretty idx.

(** ** Data model *)

Record PlaceholderPost : Type := mkPlaceholder {
  isPlaceholder : bool;
  key : string;
}.

(** The response of a [fetch]: a transport failure rejects the promise;
    otherwise there is a response with its [ok] flag, whose body parses as a
    page or does not parse at all. *)
Inductive FetchOutcome (Page : Type) : Type :=
  | NetworkFailure
  | Response (ok : bool) (json : option Page).
Arguments NetworkFailure {Page}.
Arguments Response {Page} ok json.

(** An [async] function suspended at [await fetch(url)]: the request it has
    issued and what it does with the answer. *)
Record Pending (Page : Type) : Type := Await {
  requested : string;
  resume : FetchOutcome Page → Completion Page;
}.
Arguments Await {Page} requested resume.
Arguments requested {Page} p.
Arguments resume {Page} p r.

(** The viewport as [checkScrollState] reads it: the element the ref is
    attached to (its bounding rectangle's bottom edge), if any, and
    [window.innerHeight]. *)
Record Viewport : Type := mkViewport {
  current : option Q;
  innerHeight : Q;
}.

Section Feed.

(** [PostJson], [Post] and [jsonToPost] come from the site's types and
    utilities; [postsPerFeedPage] and [feedMetaDirectory] are the fields of
    the site's [constants] the hook reads. *)
Context {PostJson Post : Type}.
Variable jsonToPost : PostJson → Post.
Variable postsPerFeedPage : Z.
Variable feedMetaDirectory : string.

(** The one field of the site configuration the hook reads. *)
Record SiteConfig : Type := mkConfig {
  pathPrefix : string;
}.

Record FeedMetadataJson : Type := mkPage {
  posts : list PostJson;
  next : option Z;
  nextCount : option Z;
}.

Inductive FeedItem : Type :=
  | PostItem (p : Post)
  | PlaceholderItem (ph : PlaceholderPost).

Definition FeedItems : Type := list FeedItem.

Record InfiniteData : Type := mkData {
  pages : list FeedMetadataJson;
  pageParams : list (option Z);
}.

Record PageContext : Type := mkContext {
  feedType : string;
  feedId : option string;
  pageIndex : Z;
  feedMetadata : FeedMetadataJson;
}.

(** The fields of the query result the hook reads, and the one method it
    calls. [W] is whatever [fetchNextPage] acts on. *)
Record UseInfiniteQueryResult (W : Type) : Type := mkResult {
  data : option InfiniteData;
  hasNextPage : bool;
  isFetchingNextPage : bool;
  error : option JsError;
  fetchNextPage : W → W;
}.
Arguments data {W} _.
Arguments hasNextPage {W} _.
Arguments isFetchingNextPage {W} _.
Arguments error {W} _.
Arguments fetchNextPage {W} _ _.

(** ** The hook *)

Definition resolveBaseUrl (pageContext : PageContext) (config : SiteConfig)
    : string :=
  pathPrefix config +:+ feedMetaDirectory +:+ "/" +:+ feedType pageContext +:+
  match feedId pageContext with
  | Some id => if bool_decide (id = "") then "" else "-" +:+ id
  | None => ""
  end.

Definition generatePostPlaceholders (keyPrefix : string) (count : option Z)
    : Completion (list PlaceholderPost) :=
  arr ← Array_ (number_or count postsPerFeedPage);
  mret (imap (λ idx _, mkPlaceholder true (placeholderKey keyPrefix idx))
             (fill 0 arr)).

Definition fetchUrl (baseUrl : string) (pageParam : option Z) : string :=
  baseUrl +:+ "-" +:+ pretty (default 0 pageParam) +:+ ".json".

Definition fetchHandler (baseUrl : string) (pageParam : option Z)
    : Pending FeedMetadataJson :=
  Await (fetchUrl baseUrl pageParam) (λ response,
    match response with
    | NetworkFailure => Throw TypeError
    | Response ok json =>
        if negb ok
        then Throw (Error ("Failed to fetch " +:+ fetchUrl baseUrl pageParam))
        else match json with
             | Some page => Normal page
             | None => Throw SyntaxError
             end
    end).

Definition generateFetchHandler (baseUrl : string)
    : option Z → Pending FeedMetadataJson :=
  fetchHandler baseUrl.

Definition loadNext {W} (feedQuery : UseInfiniteQueryResult W) : W → W :=
  if hasNextPage feedQuery
     && negb (isFetchingNextPage feedQuery)
     && negb (bool_decide (is_Some (error feedQuery)))
  then fetchNextPage feedQuery
  else id.

Definition checkScrollState {W} (loadNext : W → W) (view : Viewport)
    : W → W :=
  match current view with
  | Some bottom =>
      if Qle_bool bottom (innerHeight view) then loadNext else id
  | None => id
  end.

(** One render of [useScrollContingentFetch]: the listener its effect
    registers for scroll events, and what running the body does. The ref it
    returns is read through [current] of the viewport. *)
Record ScrollContingentFetch (W : Type) : Type := mkScroll {
  onScroll : Viewport → W → W;
  rendered : W → W;
}.
Arguments onScroll {W} _ _ _.
Arguments rendered {W} _ _.

Definition useScrollContingentFetch {W}
    (feedQuery : UseInfiniteQueryResult W) (view : Viewport)
    : ScrollContingentFetch W :=
  {| onScroll := λ view', checkScrollState (loadNext feedQuery) view';
     rendered := checkScrollState (loadNext feedQuery) view |}.

(** The [useMemo] body of [useInfiniteFeed]. *)
Definition feedItems {W} (pageContext : PageContext)
    (feedQuery : UseInfiniteQueryResult W) : Completion FeedItems :=
  let jsonPostList :=
    match data feedQuery with
    | Some d => concat (posts <$> pages d)
    | None => posts (feedMetadata pageContext)
    end in
  let list := (λ p, PostItem (jsonToPost p)) <$> jsonPostList in
  if isFetchingNextPage feedQuery then
    let lastPage := d ← data feedQuery; last (pages d) in
    placeholders ← generatePostPlaceholders "next" (lastPage ≫= nextCount);
    mret (list ++ (PlaceholderItem <$> placeholders))
  else mret list.

(** The concatenation of the pages' posts, converted: what [feedItems]
    is compared with. *)
Definition mergedItems (ps : list FeedMetadataJson) : FeedItems :=
  (λ p, PostItem (jsonToPost p)) <$> concat (posts <$> ps).

(** [n] placeholders keyed [keyPrefix-0], ..., [keyPrefix-(n-1)]. *)
Definition placeholdersFor (keyPrefix : string) (n : nat)
    : list PlaceholderPost :=
  (λ idx, mkPlaceholder true (placeholderKey keyPrefix idx)) <$> seq 0 n.

(** The posts [feedItems] starts from: those of the cached pages, or of
    the page context when the query has no data. *)
Definition shownPosts {W} (pageContext : PageContext)
    (q : UseInfiniteQueryResult W) : FeedItems :=
  match data q with
  | Some d => mergedItems (pages d)
  | None => (λ p, PostItem (jsonToPost p)) <$> posts (feedMetadata pageContext)
  end.

(** The count hint [feedItems] passes to the placeholder generator. *)
Definition countHint {W} (q : UseInfiniteQueryResult W) : option Z :=
  (d ← data q; last (pages d)) ≫= nextCount.

(** ** The query library, as far as the hook depends on it

    The hook is a client of an infinite-query observer. Its cache entry
    holds the pages fetched so far, the page request that is outstanding
    (the parameter it was started with and the suspended query function),
    the error of the last failed attempt and, to make them countable, the
    requests that went out to the network. Retries and background
    refetches of the client are not part of this model. *)
Record QueryStore : Type := mkStore {
  cached : option InfiniteData;
  inflight : option (option Z * Pending FeedMetadataJson);
  failure : option JsError;
  network : list string;
}.

(** [pages[pages.length - 1]] of the cached data. *)
Definition lastPageOf (w : QueryStore) : option FeedMetadataJson :=
  d ← cached w; last (pages d).

Section Observer.

Variable queryFn : option Z → Pending FeedMetadataJson.
Variable getNextPageParam : FeedMetadataJson → option Z.

Definition startFetch (pageParam : option Z) (w : QueryStore)
    : QueryStore :=
  let p := queryFn pageParam in
  {| cached := cached w;
     inflight := Some (pageParam, p);
     failure := failure w;
     network := network w ++ [requested p] |}.

(** Starting the next page: with no page yet the first one is fetched
    without a parameter; otherwise the parameter is computed from the
    last page, and nothing is fetched when there is none. *)
Definition observerFetchNextPage (w : QueryStore) : QueryStore :=
  match lastPageOf w with
  | Some lastPage =>
      match getNextPageParam lastPage with
      | Some c => startFetch (Some c) w
      | None => w
      end
  | None => startFetch None w
  end.

(** The outstanding request is answered: the page is appended, or the
    error is recorded; either way nothing is in flight afterwards. *)
Definition settle (r : FetchOutcome FeedMetadataJson) (w : QueryStore)
    : QueryStore :=
  match inflight w with
  | Some (pageParam, p) =>
      match resume p r with
      | Normal page =>
          let d := default (mkData [] []) (cached w) in
          {| cached := Some (mkData (pages d ++ [page])
                                    (pageParams d ++ [pageParam]));
             inflight := None;
             failure := None;
             network := network w |}
      | Throw e =>
          {| cached := cached w;
             inflight := None;
             failure := Some e;
             network := network w |}
      end
  | None => w
  end.

Definition useInfiniteQuery (w : QueryStore)
    : UseInfiniteQueryResult QueryStore :=
  {| data := cached w;
     hasNextPage :=
       bool_decide (is_Some (lastPageOf w ≫= getNextPageParam));
     isFetchingNextPage := bool_decide (is_Some (inflight w));
     error := failure w;
     fetchNextPage := observerFetchNextPage |}.

End Observer.

(** The cache entry as [initialData] sets it up. *)
Definition initialStore (pageContext : PageContext) : QueryStore :=
  {| cached := Some (mkData [feedMetadata pageContext]
                            [Some (pageIndex pageContext)]);
     inflight := None;
     failure := None;
     network := [] |}.

(** Modelled from the spec: the caller clearing the recorded error (the
    failure semantics of the paginator); no function of the hook does it. *)
Definition clearError (w : QueryStore) : QueryStore :=
  {| cached := cached w;
     inflight := inflight w;
     failure := None;
     network := network w |}.

(** ** [useInfiniteFeed] *)

Record InfiniteFeed : Type := mkFeed {
  feedElementRef : ScrollContingentFetch QueryStore;
  returnedItems : Completion FeedItems;
}.

Section Mounted.

Variable baseUrl : string.

(** The [useInfiniteQuery] call of the hook, against the cache entry [w]. *)
Definition feedQuery (w : QueryStore)
    : UseInfiniteQueryResult QueryStore :=
  useInfiniteQuery (generateFetchHandler baseUrl)
                   (λ lastPage, next lastPage) w.

(** [requestNextIfNeeded]: [loadNext] as the current render closes over
    the query result. *)
Definition requestNextIfNeeded (w : QueryStore) : QueryStore :=
  loadNext (feedQuery w) w.

(** What can happen to a mounted feed. *)
Inductive Event : Type :=
  | ViewportChanged (view : Viewport)
  | Settled (r : FetchOutcome FeedMetadataJson)
  | ErrorCleared.

Definition step (w : QueryStore) (ev : Event) : QueryStore :=
  match ev with
  | ViewportChanged view =>
      checkScrollState (loadNext (feedQuery w)) view w
  | Settled r =>
      settle r w
  | ErrorCleared => clearError w
  end.

Definition run (evs : list Event) (w : QueryStore) : QueryStore :=
  foldl step w evs.

(** The next page arrives: the viewport asks for it and the network
    answers with [page]. *)
Definition fetchPage (w : QueryStore) (page : FeedMetadataJson)
    : QueryStore :=
  settle (Response true (Some page)) (requestNextIfNeeded w).

End Mounted.

(** One render of the hook against the cache entry [w]. *)
Definition useInfiniteFeed (pageContext : PageContext) (config : SiteConfig)
    (view : Viewport) (w : QueryStore) : InfiniteFeed :=
  let baseUrl := resolveBaseUrl pageContext config in
  let feedQuery := feedQuery baseUrl w in
  let feedElementRef := useScrollContingentFetch feedQuery view in
  {| feedElementRef := feedElementRef;
     returnedItems := feedItems pageContext feedQuery |}.

(** ** Vocabulary of the properties *)

(** The three conditions under which the next page is requested: a next
    page exists, none is being fetched, no error is recorded. *)
Definition wantsNext {W} (q : UseInfiniteQueryResult W) : Prop :=
  hasNextPage q = true ∧ isFetchingNextPage q = false ∧ error q = None.

(** The observed element exists and its bottom edge is at most the
    viewport height. *)
Definition inViewport (view : Viewport) : Prop :=
  ∃ bottom, current view = Some bottom ∧ (bottom <= innerHeight view)%Q.

(** How many times one run of [checkScrollState] calls the loader it is
    given: the loader is replaced by a counter. *)
Definition invocations (view : Viewport) : nat :=
  checkScrollState S view 0%nat.


(** A response the handler does not turn into a page. *)
Definition fetchFails (r : FetchOutcome FeedMetadataJson) : Prop :=
  ∀ page, r ≠ Response true (Some page).

(** A fetch that is in flight was started for the cursor of the last
    page. *)
Definition inflightHasCursor (w : QueryStore) : Prop :=
  is_Some (inflight w) → is_Some (lastPageOf w ≫= next).

(** Every page but the last names a next page. *)
Definition chained (ps : list FeedMetadataJson) : Prop :=
  ∀ i p, ps !! i = Some p → (S i < length ps)%nat → is_Some (next p).

End Feed.

Arguments FeedMetadataJson : clear implicits.
Arguments InfiniteData : clear implicits.
Arguments PageContext : clear implicits.
Arguments UseInfiniteQueryResult : clear implicits.
Arguments QueryStore : clear implicits.
Arguments Event : clear implicits.
Arguments FeedItem : clear implicits.
Arguments FeedItems : clear implicits.
Arguments InfiniteFeed : clear implicits.
Arguments generateFetchHandler {PostJson} baseUrl /.
Arguments data {PostJson W} _.
Arguments hasNextPage {PostJson W} _.
Arguments isFetchingNextPage {PostJson W} _.
Arguments error {PostJson W} _.
Arguments fetchNextPage {PostJson W} _ _.
Arguments onScroll {W} _ _ _.
Arguments rendered {W} _ _.

(** ** Concrete feeds *)

(** A feed of two posts whose next page is announced with two posts. *)
Definition twoPostContext : PageContext string :=
  mkContext "index" None 0 (mkPage ["A"; "B"] (Some 1) (Some 2)).

(** The same feed announcing its next page with a count of zero. *)
Definition zeroCountContext : PageContext string :=
  mkContext "index" None 0 (mkPage ["A"; "B"] (Some 1) (Some 0)).

(** A last page: one post and no cursor. *)
Definition lastPage : FeedMetadataJson string :=
  mkPage ["C"] None None.

(** A query result without data, as the hook would see it before the cache
    holds anything. *)
Definition noData : UseInfiniteQueryResult string unit :=
  mkResult unit None false false None id.

(** A site served from the root; its feed pages live under [/feed]. *)
Definition rootConfig : SiteConfig := mkConfig "".

(** The two feeds right after the next page has been requested. *)
Definition twoPostFetching : QueryStore string :=
  requestNextIfNeeded "/feed/index" (initialStore twoPostContext).
Definition zeroCountFetching : QueryStore string :=
  requestNextIfNeeded "/feed/index" (initialStore zeroCountContext).

(** The element's bottom edge above, and below, the fold of a viewport
    600 pixels high. *)
Definition inView : Viewport := mkViewport (Some (480 # 1)%Q) (600 # 1)%Q.
Definition belowFold : Viewport := mkViewport (Some (1250 # 1)%Q) (600 # 1)%Q.
Definition unattached : Viewport := mkViewport None (600 # 1)%Q.

(** ** The share bar ([PostShare]) *)

Module Share.

(** The fields of the site configuration the share bar reads:
    [config.user.twitterHandle], [config.site.twitterHandle] and
    [config.site.name]. *)
Record SiteConfig : Type := mkConfig {
  userTwitterHandle : option string;
  siteTwitterHandle : option string;
  siteName : string;
}.

(** The fields of a post the share bar reads. *)
Record Post : Type := mkPost {
  title : string;
  excerpt : string;
  url : string;
}.

(** [relatedTwitterHandles.push(handle)] under [if (handle)]: an absent or
    empty handle is falsy. *)
Definition pushIfTruthy (handle : option string) (handles : list string)
    : list string :=
  match handle with
  | Some h => if bool_decide (h = "") then handles else handles ++ [h]
  | None => handles
  end.

Definition generateRelatedTwitterHandles (config : SiteConfig) : list string :=
  let relatedTwitterHandles := [] in
  let relatedTwitterHandles :=
    pushIfTruthy (userTwitterHandle config) relatedTwitterHandles in
  let relatedTwitterHandles :=
    pushIfTruthy (siteTwitterHandle config) relatedTwitterHandles in
  relatedTwitterHandles.

(** The children of the link grid, in the order they are rendered. *)
Inductive Element : Type :=
  | FacebookShare (quote url : string)
  | TwitterShare (related : list string) (title url via : string)
  | RedditShare (title url : string)
  | LinkedinShare (source summary title url : string)
  | LinkButton
  | LinkCopyNotification.

(** The component's state hook and the clipboard writes it has asked for. *)
Record State : Type := mkState {
  showLinkNotification : bool;
  clipboardWrites : list string;
}.

Definition initialState : State := mkState false [].

Definition PostShare (post : Post) (config : SiteConfig) (st : State)
    : list Element :=
  let relatedTwitterHandles := generateRelatedTwitterHandles config in
  [ FacebookShare (excerpt post) (url post);
    TwitterShare relatedTwitterHandles (title post) (url post)
                 (siteName config);
    RedditShare (title post) (url post);
    LinkedinShare (siteName config) (excerpt post) (title post) (url post);
    LinkButton ]
  ++ (if showLinkNotification st then [LinkCopyNotification] else []).

(** What the user and the browser do to a rendered share bar. *)
Inductive Event : Type :=
  | LinkButtonClicked
  | NotificationAnimationEnded.

(** The two handlers; [onAnimationEnd] exists only while the notification
    is rendered. *)
Definition handle (post : Post) (st : State) (ev : Event) : State :=
  match ev with
  | LinkButtonClicked =>
      {| showLinkNotification := true;
         clipboardWrites := clipboardWrites st ++ [url post] |}
  | NotificationAnimationEnded =>
      if showLinkNotification st
      then {| showLinkNotification := false;
              clipboardWrites := clipboardWrites st |}
      else st
  end.

Definition isClick (ev : Event) : bool :=
  match ev with
  | LinkButtonClicked => true
  | NotificationAnimationEnded => false
  end.

End Share.

(** ** The post intro ([PostIntro]) *)

Module Intro.

Section WithImages.

(** [ImageDataLike], [IGatsbyImageData] and [getImage] belong to the image
    plugin; [getImage] answers [undefined] when it cannot resolve. *)
Context {ImageDataLike IGatsbyImageData : Type}.
Variable getImage : ImageDataLike → option IGatsbyImageData.

Record IPost : Type := mkPost {
  title : string;
  excerpt : string;
  coverImg : option ImageDataLike;
  coverImageAlt : string;
}.

(** What the component renders: the heading and body of the details, the
    post handed to [PostInfo], and the cover image with its alt text. *)
Record Rendered : Type := mkRendered {
  heading : string;
  body : string;
  postInfo : IPost;
  coverAlt : string;
  coverImage : IGatsbyImageData;
}.

Definition PostIntro (post : IPost) : Completion Rendered :=
  match coverImg post with
  | None =>
      Throw (Error "[PostIntro] Cannot render `PostIntro` without `coverImg`")
  | Some img =>
      match getImage img with
      | None =>
          Throw (Error
            "[PostIntro] `getImage` failed to resolve `post.coverImg`")
      | Some imgData =>
          Normal {| heading := title post;
                    body := excerpt post;
                    postInfo := post;
                    coverAlt := coverImageAlt post;
                    coverImage := imgData |}
      end
  end.

End WithImages.

Arguments IPost : clear implicits.
Arguments Rendered : clear implicits.

End Intro.

(** ** More vocabulary *)


(** A feed with a tag id, a site with both handles, a post to share, and a
    post with and without cover image. *)
Definition tagContext (id : string) : PageContext string :=
  mkContext "tag" (Some id) 0 (mkPage ["A"] (Some 1) None).

(** What the first render of the two-post feed sets up, with its element
    in view: the scroll listener it registers and the check of its body. *)
Definition firstRender : ScrollContingentFetch (QueryStore string) :=
  feedElementRef
    (useInfiniteFeed id 5 "/feed" twoPostContext rootConfig inView
       (initialStore twoPostContext)).



Definition bothHandles : Share.SiteConfig :=
  Share.mkConfig (Some "author") (Some "site") "zito".

Definition sharedPost : Share.Post :=
  Share.mkPost "Title" "Excerpt" "https://zito.dev/post".

Definition resolveCover (img : string) : option nat :=
  if bool_decide (img = "cover.png") then Some 42%nat else None.

Definition coveredPost : Intro.IPost string :=
  Intro.mkPost "Title" "Excerpt" (Some "cover.png") "A cover".

(** ** Properties *)

Section Properties.

Context {PostJson Post : Type}.
Variable jsonToPost : PostJson → Post.
Variable postsPerFeedPage : Z.
Variable feedMetaDirectory : string.

Implicit Types (pageContext : PageContext PostJson).
Implicit Types (w : QueryStore PostJson).
Implicit Types (page : FeedMetadataJson PostJson).

(** *** Placeholders *)

Lemma number_or_undefined b : number_or None b = b.
Proof. reflexivity. Qed.

Lemma number_or_zero b : number_or (Some 0) b = b.
Proof. reflexivity. Qed.

Lemma number_or_nonzero n b : n ≠ 0 → number_or (Some n) b = n.
Proof. intros Hn. unfold number_or. by rewrite bool_decide_eq_false_2. Qed.

Lemma number_or_ne_0 a b : b ≠ 0 → number_or a b ≠ 0.
Proof.
  intros Hb. destruct a as [n|]; simpl; [|done].
  case_bool_decide; done.
Qed.

Lemma Array_length len arr : Array_ len = Normal arr → length arr = Z.to_nat len.
Proof.
  unfold Array_. case_bool_decide; [|done].
  intros [= <-]. apply length_replicate.
Qed.

Lemma Array_range len arr : Array_ len = Normal arr → 0 ≤ len < 2 ^ 32.
Proof. unfold Array_. by case_bool_decide. Qed.

#[local] Instance placeholderKey_inj keyPrefix :
  Inj (=) (=) (placeholderKey keyPrefix).
Proof.
  intros i j Hij. unfold placeholderKey in Hij.
  do 2 apply (inj (String.app _)) in Hij.
  by apply (inj pretty).
Qed.

Lemma placeholdersFor_length keyPrefix n :
  length (placeholdersFor keyPrefix n) = n.
Proof. unfold placeholdersFor. by rewrite length_fmap, length_seq. Qed.

Lemma placeholdersFor_lookup keyPrefix n i :
  (i < n)%nat →
  placeholdersFor keyPrefix n !! i
    = Some (mkPlaceholder true (placeholderKey keyPrefix i)).
Proof.
  intros Hi. unfold placeholdersFor.
  by rewrite list_lookup_fmap, lookup_seq_lt.
Qed.

Lemma placeholdersFor_keys_NoDup keyPrefix n :
  NoDup (key <$> placeholdersFor keyPrefix n).
Proof.
  unfold placeholdersFor. rewrite <-list_fmap_compose.
  apply (NoDup_fmap_2 (placeholderKey keyPrefix)), NoDup_seq.
Qed.

Lemma generatePostPlaceholders_Normal keyPrefix count :
  0 ≤ number_or count postsPerFeedPage < 2 ^ 32 →
  generatePostPlaceholders postsPerFeedPage keyPrefix count
    = Normal (placeholdersFor keyPrefix
                (Z.to_nat (number_or count postsPerFeedPage))).
Proof.
  intros Hn. unfold generatePostPlaceholders, Array_.
  rewrite bool_decide_eq_true_2 by done. simpl.
  unfold mret, Completion_ret, fill, placeholdersFor. f_equal.
  by rewrite imap_seq_0, length_fmap, length_replicate.
Qed.

Lemma generatePostPlaceholders_Throw keyPrefix count :
  ¬ 0 ≤ number_or count postsPerFeedPage < 2 ^ 32 →
  generatePostPlaceholders postsPerFeedPage keyPrefix count = Throw RangeError.
Proof.
  intros Hn. unfold generatePostPlaceholders, Array_.
  by rewrite bool_decide_eq_false_2.
Qed.

Lemma generatePostPlaceholders_inv keyPrefix count phs :
  generatePostPlaceholders postsPerFeedPage keyPrefix count = Normal phs →
  0 ≤ number_or count postsPerFeedPage < 2 ^ 32
  ∧ phs = placeholdersFor keyPrefix
            (Z.to_nat (number_or count postsPerFeedPage)).
Proof.
  intros Hg.
  destruct (decide (0 ≤ number_or count postsPerFeedPage < 2 ^ 32)) as [Hn|Hn].
  - rewrite generatePostPlaceholders_Normal in Hg by done. by injection Hg.
  - by rewrite generatePostPlaceholders_Throw in Hg.
Qed.

Lemma mergedItems_length ps :
  length (mergedItems jsonToPost ps) = sum_list ((λ p, length (posts p)) <$> ps).
Proof.
  unfold mergedItems. rewrite length_fmap, length_concat.
  by rewrite <-list_fmap_compose.
Qed.

Lemma mergedItems_app ps1 ps2 :
  mergedItems jsonToPost (ps1 ++ ps2)
    = mergedItems jsonToPost ps1 ++ mergedItems jsonToPost ps2.
Proof. unfold mergedItems. by rewrite fmap_app, concat_app, fmap_app. Qed.

Lemma feedItems_idle {W} pageContext (q : UseInfiniteQueryResult PostJson W) :
  isFetchingNextPage q = false →
  feedItems jsonToPost postsPerFeedPage pageContext q = Normal (shownPosts jsonToPost pageContext q).
Proof.
  intros Hq. unfold feedItems, shownPosts, mergedItems. rewrite Hq.
  by destruct (data q).
Qed.

Lemma feedItems_fetching {W} pageContext (q : UseInfiniteQueryResult PostJson W) :
  isFetchingNextPage q = true →
  feedItems jsonToPost postsPerFeedPage pageContext q
    = phs ← generatePostPlaceholders postsPerFeedPage "next" (countHint q);
      mret (shownPosts jsonToPost pageContext q ++ (PlaceholderItem <$> phs)).
Proof.
  intros Hq. unfold feedItems, shownPosts, mergedItems, countHint.
  rewrite Hq. by destruct (data q).
Qed.

Lemma feedItems_completes {W} pageContext (q : UseInfiniteQueryResult PostJson W) :
  isFetchingNextPage q = false
  ∨ 0 ≤ number_or (countHint q) postsPerFeedPage < 2 ^ 32 →
  completes (feedItems jsonToPost postsPerFeedPage pageContext q).
Proof.
  destruct (isFetchingNextPage q) eqn:Hq; intros [?|Hn]; try done.
  - rewrite feedItems_fetching, generatePostPlaceholders_Normal by done.
    by eexists.
  - rewrite feedItems_idle by done. by eexists.
  - rewrite feedItems_idle by done. by eexists.
Qed.

(** C3 (amended): while a fetch is in flight the merged list is the
    fetched pages' items followed by placeholders only; their number is
    the last page's [nextCount] when that is a non-zero array length and
    the default page size when it is absent or zero, so the length of the
    list is the sum of the pages' item counts plus that number; the
    placeholder at position [i] has the key [next-i], and the keys are
    pairwise distinct. *)
Theorem placeholders_while_fetching {W} pageContext
    (q : UseInfiniteQueryResult PostJson W) d :
  data q = Some d →
  isFetchingNextPage q = true →
  0 ≤ number_or (last (pages d) ≫= nextCount) postsPerFeedPage < 2 ^ 32 →
  ∃ phs : list PlaceholderPost,
    feedItems jsonToPost postsPerFeedPage pageContext q
      = Normal (mergedItems jsonToPost (pages d) ++ (PlaceholderItem <$> phs))
    ∧ length phs
      = Z.to_nat (match last (pages d) ≫= nextCount with
                  | Some n => if bool_decide (n = 0) then postsPerFeedPage else n
                  | None => postsPerFeedPage
                  end)
    ∧ length (mergedItems jsonToPost (pages d) ++ (PlaceholderItem <$> phs))
      = (sum_list ((λ p, length (posts p)) <$> pages d) + length phs)%nat
    ∧ (∀ i, (i < length phs)%nat →
         phs !! i = Some (mkPlaceholder true ("next-" +:+ pretty i)))
    ∧ NoDup (key <$> phs).
Proof.
  intros Hd Hq Hn.
  assert (countHint q = last (pages d) ≫= nextCount) as Hc
    by (unfold countHint; by rewrite Hd).
  exists (placeholdersFor "next"
            (Z.to_nat (number_or (last (pages d) ≫= nextCount)
                                 postsPerFeedPage))).
  split_and!.
  - rewrite feedItems_fetching, Hc, generatePostPlaceholders_Normal by done.
    unfold shownPosts. by rewrite Hd.
  - by rewrite placeholdersFor_length.
  - by rewrite length_app, length_fmap, mergedItems_length.
  - intros i Hi. rewrite placeholdersFor_length in Hi.
    by rewrite placeholdersFor_lookup.
  - apply placeholdersFor_keys_NoDup.
Qed.

(** C9: a [nextCount] of zero is treated like an absent one: the
    generator returns the default page-size number of placeholders, so a
    merged list computed while a fetch is in flight ends with at least one
    placeholder. *)
Theorem zero_count_falls_back_to_default :
  0 < postsPerFeedPage < 2 ^ 32 →
  (∀ keyPrefix,
     generatePostPlaceholders postsPerFeedPage keyPrefix (Some 0)
       = generatePostPlaceholders postsPerFeedPage keyPrefix None
     ∧ ∃ phs,
         generatePostPlaceholders postsPerFeedPage keyPrefix (Some 0)
           = Normal phs
         ∧ Z.of_nat (length phs) = postsPerFeedPage)
  ∧ (∀ W pageContext (q : UseInfiniteQueryResult PostJson W),
       isFetchingNextPage q = true →
       countHint q = Some 0 →
       ∃ phs,
         feedItems jsonToPost postsPerFeedPage pageContext q
           = Normal (shownPosts jsonToPost pageContext q
                     ++ (PlaceholderItem <$> phs))
         ∧ Z.of_nat (length phs) = postsPerFeedPage)
  ∧ (∀ W pageContext (q : UseInfiniteQueryResult PostJson W) items,
       isFetchingNextPage q = true →
       feedItems jsonToPost postsPerFeedPage pageContext q = Normal items →
       ∃ phs,
         items = shownPosts jsonToPost pageContext q
                 ++ (PlaceholderItem <$> phs)
         ∧ (0 < length phs)%nat).
Proof.
  intros Hp. split_and!.
  - intros keyPrefix. split; [done|].
    exists (placeholdersFor keyPrefix (Z.to_nat postsPerFeedPage)). split.
    + by rewrite generatePostPlaceholders_Normal
        by (rewrite number_or_zero; lia).
    + rewrite placeholdersFor_length. lia.
  - intros W pageContext q Hq Hc.
    exists (placeholdersFor "next" (Z.to_nat postsPerFeedPage)). split.
    + rewrite feedItems_fetching, Hc by done.
      by rewrite generatePostPlaceholders_Normal
        by (rewrite number_or_zero; lia).
    + rewrite placeholdersFor_length. lia.
  - intros W pageContext q items Hq Hitems.
    rewrite feedItems_fetching in Hitems by done.
    destruct (generatePostPlaceholders _ _ _) as [phs|] eqn:Hg; [|done].
    injection Hitems as <-.
    apply generatePostPlaceholders_inv in Hg as [Hn ->].
    eexists; split; [done|].
    rewrite placeholdersFor_length.
    pose proof (number_or_ne_0 (countHint q) postsPerFeedPage). lia.
Qed.

(** When the query result has no data object, the memoised computation
    starts from the page context's posts, converted; it returns exactly
    those when no next page is being fetched, and in every case it
    completes with a list that begins with them. *)
Theorem feedItems_without_data {W} pageContext
    (q : UseInfiniteQueryResult PostJson W) :
  data q = None →
  (isFetchingNextPage q = false →
     feedItems jsonToPost postsPerFeedPage pageContext q
       = Normal ((λ p, PostItem (jsonToPost p))
                   <$> posts (feedMetadata pageContext)))
  ∧ (0 ≤ postsPerFeedPage < 2 ^ 32 →
     ∃ phs,
       feedItems jsonToPost postsPerFeedPage pageContext q
         = Normal (((λ p, PostItem (jsonToPost p))
                      <$> posts (feedMetadata pageContext))
                   ++ (PlaceholderItem <$> phs))
       ∧ (isFetchingNextPage q = false → phs = [])).
Proof.
  intros Hd. split.
  - intros Hq. rewrite feedItems_idle by done.
    unfold shownPosts. by rewrite Hd.
  - intros Hp. destruct (isFetchingNextPage q) eqn:Hq.
    + exists (placeholdersFor "next" (Z.to_nat postsPerFeedPage)).
      split; [|done].
      rewrite feedItems_fetching by done.
      rewrite generatePostPlaceholders_Normal
        by (unfold countHint; rewrite Hd; exact Hp).
      unfold shownPosts, countHint. by rewrite Hd.
    + exists []. split; [|done].
      rewrite feedItems_idle by done.
      unfold shownPosts. by rewrite Hd, app_nil_r.
Qed.

(** *** The guard of [loadNext] *)

Lemma loadNext_wanted {W} (q : UseInfiniteQueryResult PostJson W) :
  wantsNext q → loadNext q = fetchNextPage q.
Proof.
  intros (Hn & Hf & He). unfold loadNext. by rewrite Hn, Hf, He.
Qed.

Lemma loadNext_unwanted {W} (q : UseInfiniteQueryResult PostJson W) :
  ¬ wantsNext q → loadNext q = id.
Proof.
  intros Hq. unfold loadNext.
  destruct (hasNextPage q) eqn:Hn; [|done].
  destruct (isFetchingNextPage q) eqn:Hf; [done|].
  simpl. case_bool_decide as He; [done|].
  destruct Hq. split_and!; [done..|].
  destruct (error q); [|done]. destruct He. by eexists.
Qed.

Lemma wantsNext_dec {W} (q : UseInfiniteQueryResult PostJson W) :
  wantsNext q ∨ ¬ wantsNext q.
Proof.
  unfold wantsNext.
  destruct (hasNextPage q), (isFetchingNextPage q), (error q);
    first [by left | right; by intros (? & ? & ?)].
Qed.

(** The conditions, read off the cache entry the render observes. *)
Lemma wantsNext_feedQuery baseUrl w :
  wantsNext (feedQuery baseUrl w)
  ↔ is_Some (lastPageOf w ≫= next) ∧ inflight w = None ∧ failure w = None.
Proof.
  unfold wantsNext, feedQuery, useInfiniteQuery. simpl.
  rewrite bool_decide_eq_true, bool_decide_eq_false.
  rewrite <-eq_None_not_Some. done.
Qed.

Lemma observerFetchNextPage_cursor queryFn (w : QueryStore PostJson) c :
  lastPageOf w ≫= next = Some c →
  observerFetchNextPage queryFn (λ lastPage, next lastPage) w
    = startFetch queryFn (Some c) w.
Proof.
  intros Hc. unfold observerFetchNextPage.
  destruct (lastPageOf w) as [lastPage|]; [|done].
  simpl in Hc. by rewrite Hc.
Qed.

Lemma requestNextIfNeeded_wanted baseUrl w c :
  lastPageOf w ≫= next = Some c → inflight w = None → failure w = None →
  requestNextIfNeeded baseUrl w
    = startFetch (fetchHandler baseUrl) (Some c) w.
Proof.
  intros Hc Hi He. unfold requestNextIfNeeded.
  rewrite loadNext_wanted by (apply wantsNext_feedQuery; by rewrite Hc).
  by apply observerFetchNextPage_cursor.
Qed.

Lemma requestNextIfNeeded_unwanted baseUrl w :
  ¬ wantsNext (feedQuery baseUrl w) → requestNextIfNeeded baseUrl w = w.
Proof.
  intros Hq. unfold requestNextIfNeeded. by rewrite loadNext_unwanted.
Qed.

Lemma requestNextIfNeeded_inflight baseUrl w :
  is_Some (inflight w) → requestNextIfNeeded baseUrl w = w.
Proof.
  intros Hi. apply requestNextIfNeeded_unwanted.
  rewrite wantsNext_feedQuery. intros (_ & Hn & _).
  rewrite Hn in Hi. by destruct Hi.
Qed.

Lemma requestNextIfNeeded_failed baseUrl w :
  is_Some (failure w) → requestNextIfNeeded baseUrl w = w.
Proof.
  intros Hi. apply requestNextIfNeeded_unwanted.
  rewrite wantsNext_feedQuery. intros (_ & _ & Hn).
  rewrite Hn in Hi. by destruct Hi.
Qed.

Lemma requestNextIfNeeded_no_cursor baseUrl w :
  lastPageOf w ≫= next = None → requestNextIfNeeded baseUrl w = w.
Proof.
  intros Hi. apply requestNextIfNeeded_unwanted.
  rewrite wantsNext_feedQuery. intros (Hn & _ & _).
  rewrite Hi in Hn. by destruct Hn.
Qed.

Lemma checkScrollState_inViewport {W} (k : W → W) view :
  inViewport view → checkScrollState k view = k.
Proof.
  intros (bottom & Hc & Hle). unfold checkScrollState. rewrite Hc.
  apply Qle_bool_iff in Hle. by rewrite Hle.
Qed.

Lemma checkScrollState_not_inViewport {W} (k : W → W) view :
  ¬ inViewport view → checkScrollState k view = id.
Proof.
  intros Hv. unfold checkScrollState.
  destruct (current view) as [bottom|] eqn:Hc; [|done].
  destruct (Qle_bool bottom (innerHeight view)) eqn:Hle; [|done].
  destruct Hv. exists bottom. split; [done|]. by apply Qle_bool_iff.
Qed.

Lemma inViewport_dec view : inViewport view ∨ ¬ inViewport view.
Proof.
  unfold inViewport. destruct (current view) as [bottom|].
  - destruct (Qle_bool bottom (innerHeight view)) eqn:Hle.
    + left. exists bottom. split; [done|]. by apply Qle_bool_iff.
    + right. intros (b & [= <-] & Hb). apply Qle_bool_iff in Hb. congruence.
  - right. by intros (b & ? & _).
Qed.

Lemma step_viewport_noop baseUrl w view :
  requestNextIfNeeded baseUrl w = w →
  step baseUrl w (ViewportChanged view) = w.
Proof.
  intros Hw. simpl. destruct (inViewport_dec view) as [Hv|Hv].
  - by rewrite checkScrollState_inViewport.
  - by rewrite checkScrollState_not_inViewport.
Qed.

Lemma run_viewport_noop baseUrl w views :
  requestNextIfNeeded baseUrl w = w →
  run baseUrl (ViewportChanged <$> views) w = w.
Proof.
  intros Hw. unfold run.
  induction views as [|view views IH]; [done|].
  simpl foldl. change (checkScrollState _ view w)
    with (step baseUrl w (ViewportChanged view)).
  by rewrite step_viewport_noop.
Qed.



Lemma requestNextIfNeeded_effect baseUrl w :
  wantsNext (feedQuery baseUrl w) →
  ∃ c, lastPageOf w ≫= next = Some c
       ∧ requestNextIfNeeded baseUrl w
         = startFetch (fetchHandler baseUrl) (Some c) w.
Proof.
  intros ([c Hc] & Hi & He)%wantsNext_feedQuery.
  exists c. split; [done|]. by apply requestNextIfNeeded_wanted.
Qed.

Lemma requestNextIfNeeded_idem baseUrl w :
  requestNextIfNeeded baseUrl (requestNextIfNeeded baseUrl w)
    = requestNextIfNeeded baseUrl w.
Proof.
  destruct (wantsNext_dec (feedQuery baseUrl w)) as [Hq|Hq].
  - destruct (requestNextIfNeeded_effect _ _ Hq) as (c & _ & ->).
    apply requestNextIfNeeded_inflight. by eexists.
  - rewrite (requestNextIfNeeded_unwanted _ w Hq).
    by apply requestNextIfNeeded_unwanted.
Qed.

(** C8: a run of [checkScrollState] calls the loader once when the
    observed element exists and its bottom edge is at most the viewport
    height, and not at all otherwise; a viewport notification therefore
    is [requestNextIfNeeded] in the first case and nothing in the second.
    The body of [useScrollContingentFetch] runs the same check once per
    render, and the scroll listener it registers runs it per event. *)
Theorem checkScrollState_loads_iff_inViewport :
  (∀ view, (invocations view = 1%nat ↔ inViewport view)
           ∧ (invocations view = 0%nat ↔ ¬ inViewport view))
  ∧ (∀ W (k : W → W) view,
       (inViewport view → checkScrollState k view = k)
       ∧ (¬ inViewport view → checkScrollState k view = id))
  ∧ (∀ baseUrl w view,
       (inViewport view →
          step (PostJson := PostJson) baseUrl w (ViewportChanged view)
            = requestNextIfNeeded baseUrl w)
       ∧ (¬ inViewport view →
          step (PostJson := PostJson) baseUrl w (ViewportChanged view) = w))
  ∧ (∀ W (q : UseInfiniteQueryResult PostJson W) view view',
       rendered (useScrollContingentFetch q view)
         = checkScrollState (loadNext q) view
       ∧ onScroll (useScrollContingentFetch q view) view'
         = checkScrollState (loadNext q) view').
Proof.
  split_and!.
  - intros view. unfold invocations.
    destruct (inViewport_dec view) as [Hv|Hv].
    + rewrite checkScrollState_inViewport by done. by split.
    + rewrite checkScrollState_not_inViewport by done. by split.
  - intros W k view. split.
    + apply checkScrollState_inViewport.
    + apply checkScrollState_not_inViewport.
  - intros baseUrl w view. split; intros Hv; simpl.
    + by rewrite checkScrollState_inViewport.
    + by rewrite checkScrollState_not_inViewport.
  - done.
Qed.


(** When the query result a call reads already shows the fetch,
    [requestNextIfNeeded] does nothing, however often the viewport asks; two
    calls with a render between them, so that the second reads the new
    query result, send one request, not two. *)
Theorem at_most_one_fetch_in_flight baseUrl w :
  (is_Some (inflight w) →
     requestNextIfNeeded baseUrl w = w
     ∧ ∀ views, run baseUrl (ViewportChanged <$> views) w = w)
  ∧ (wantsNext (feedQuery baseUrl w) →
     ∃ c, lastPageOf w ≫= next = Some c
       ∧ network (requestNextIfNeeded baseUrl
                    (requestNextIfNeeded baseUrl w))
         = network w ++ [baseUrl +:+ "-" +:+ pretty c +:+ ".json"])
  ∧ (length (network (requestNextIfNeeded baseUrl
                        (requestNextIfNeeded baseUrl w)))
     ≤ S (length (network w)))%nat.
Proof.
  split_and!.
  - intros Hi. split; [by apply requestNextIfNeeded_inflight|].
    intros views. by apply run_viewport_noop, requestNextIfNeeded_inflight.
  - intros Hq. rewrite requestNextIfNeeded_idem.
    destruct (requestNextIfNeeded_effect _ _ Hq) as (c & Hc & ->).
    by exists c.
  - rewrite requestNextIfNeeded_idem.
    destruct (wantsNext_dec (feedQuery baseUrl w)) as [Hq|Hq].
    + destruct (requestNextIfNeeded_effect _ _ Hq) as (c & Hc & ->).
      simpl. rewrite length_app. simpl. lia.
    + rewrite requestNextIfNeeded_unwanted by done. lia.
Qed.

(** *** Settling a fetch *)

Lemma feedItems_ext {W1 W2} pageContext
    (q1 : UseInfiniteQueryResult PostJson W1)
    (q2 : UseInfiniteQueryResult PostJson W2) :
  data q1 = data q2 →
  isFetchingNextPage q1 = isFetchingNextPage q2 →
  feedItems jsonToPost postsPerFeedPage pageContext q1
    = feedItems jsonToPost postsPerFeedPage pageContext q2.
Proof. intros Hd Hf. unfold feedItems. by rewrite Hd, Hf. Qed.

Lemma fetchHandler_resume_fails baseUrl pageParam r :
  fetchFails r →
  ∃ e, resume (fetchHandler (PostJson := PostJson) baseUrl pageParam) r
       = Throw e.
Proof.
  intros Hr. destruct r as [|[] [page|]]; simpl; try by eexists.
  by destruct (Hr page).
Qed.

Lemma fetchHandler_resume_page baseUrl pageParam page :
  resume (fetchHandler baseUrl pageParam) (Response true (Some page))
    = Normal page.
Proof. done. Qed.

Lemma settle_idle r w : inflight w = None → settle r w = w.
Proof. intros Hi. unfold settle. by rewrite Hi. Qed.

Lemma settle_startFetch_fails baseUrl pageParam r w :
  fetchFails r →
  ∃ e, settle r (startFetch (fetchHandler baseUrl) pageParam w)
       = {| cached := cached w;
            inflight := None;
            failure := Some e;
            network := network w
                       ++ [requested (fetchHandler (PostJson := PostJson)
                                        baseUrl pageParam)] |}.
Proof.
  intros Hr.
  destruct (fetchHandler_resume_fails baseUrl pageParam r Hr) as [e He].
  exists e. unfold settle, startFetch. cbn [inflight]. by rewrite He.
Qed.

Lemma fetchPage_appends baseUrl w ps params lp c page :
  cached w = Some (mkData ps params) → last ps = Some lp →
  next lp = Some c → inflight w = None → failure w = None →
  fetchPage baseUrl w page
    = {| cached := Some (mkData (ps ++ [page]) (params ++ [Some c]));
         inflight := None;
         failure := None;
         network := network w ++ [fetchUrl baseUrl (Some c)] |}.
Proof.
  intros Hd Hl Hc Hi He. unfold fetchPage.
  rewrite (requestNextIfNeeded_wanted _ _ c); [|by unfold lastPageOf; rewrite Hd; simpl; rewrite Hl|done..].
  unfold settle, startFetch. cbn [inflight cached network].
  by rewrite fetchHandler_resume_page, Hd.
Qed.

Lemma chained_snoc ps page : chained (ps ++ [page]) → chained ps.
Proof.
  intros Hch i p Hi Hlt. apply (Hch i).
  - rewrite lookup_app_l; [done|lia].
  - rewrite length_app. simpl. lia.
Qed.

Lemma chained_last ps lp page :
  chained (ps ++ [page]) → last ps = Some lp → is_Some (next lp).
Proof.
  intros Hch Hl. apply last_Some in Hl as [ps' ->].
  apply (Hch (length ps')).
  - rewrite <-(assoc_L (++)). by apply list_lookup_middle.
  - rewrite !length_app. simpl. lia.
Qed.

(** The cache entry after the pages [fetched] have arrived one after the
    other. *)
Lemma fetchPages_store pageContext baseUrl
    (fetched : list (FeedMetadataJson PostJson)) :
  chained (feedMetadata pageContext :: fetched) →
  ∃ params,
    foldl (fetchPage baseUrl) (initialStore pageContext) fetched
      = {| cached := Some (mkData (feedMetadata pageContext :: fetched)
                                  params);
           inflight := None;
           failure := None;
           network := (λ p, fetchUrl baseUrl (next p))
                        <$> take (length fetched)
                                 (feedMetadata pageContext :: fetched) |}.
Proof.
  induction fetched as [|page fetched IH] using rev_ind; intros Hch.
  - by eexists.
  - rewrite app_comm_cons in Hch.
    destruct (IH (chained_snoc _ _ Hch)) as [params Hw].
    destruct (last (feedMetadata pageContext :: fetched)) as [lp|] eqn:Hl;
      [|by apply last_None in Hl].
    destruct (chained_last _ _ _ Hch Hl) as [c Hc].
    exists (params ++ [Some c]).
    rewrite foldl_snoc, Hw.
    erewrite fetchPage_appends; [|done..]. cbn [network]. f_equal.
    rewrite app_comm_cons.
    rewrite (take_app_length' (feedMetadata pageContext :: fetched))
      by (rewrite length_app; simpl; lia).
    apply last_Some in Hl as [ps' Hps']. rewrite Hps'.
    assert (length fetched = length ps') as ->.
    { apply (f_equal length) in Hps'. rewrite length_app in Hps'.
      simpl in Hps'. lia. }
    rewrite take_app_length, fmap_app. simpl. by rewrite Hc.
Qed.

(** *** Reachable cache entries *)

Lemma step_cases baseUrl (w : QueryStore PostJson) ev :
  step baseUrl w ev = w
  ∨ (∃ c, lastPageOf w ≫= next = Some c
        ∧ step baseUrl w ev = startFetch (fetchHandler baseUrl) (Some c) w)
  ∨ (∃ r, is_Some (inflight w) ∧ step baseUrl w ev = settle r w)
  ∨ step baseUrl w ev = clearError w.
Proof.
  destruct ev as [view|r|].
  - destruct (inViewport_dec view) as [Hv|Hv]; simpl.
    + rewrite checkScrollState_inViewport by done.
      destruct (wantsNext_dec (feedQuery baseUrl w)) as [Hq|Hq].
      * right; left. by apply requestNextIfNeeded_effect.
      * left. by apply requestNextIfNeeded_unwanted.
    + rewrite checkScrollState_not_inViewport by done. by left.
  - simpl. destruct (inflight w) as [p|] eqn:Hi.
    + right; right; left. exists r. split; [by eexists|done].
    + left. by apply settle_idle.
  - by right; right; right.
Qed.

Lemma lastPageOf_settle_is_Some r (w : QueryStore PostJson) :
  is_Some (lastPageOf w) → is_Some (lastPageOf (settle r w)).
Proof.
  intros Hl. unfold settle.
  destruct (inflight w) as [[pageParam p]|]; [|done].
  destruct (resume p r) as [page|e]; [|done].
  unfold lastPageOf. simpl. rewrite last_snoc. by eexists.
Qed.

Lemma step_inflightHasCursor baseUrl (w : QueryStore PostJson) ev :
  inflightHasCursor w → inflightHasCursor (step baseUrl w ev).
Proof.
  intros Hw.
  destruct (step_cases baseUrl w ev)
    as [ -> |[(c & Hc & ->)|[(r & Hi & ->)| -> ]]]; [done|..|done].
  - intros _. unfold lastPageOf in *. simpl. by rewrite Hc.
  - intros Hi'. unfold settle in Hi'.
    destruct (inflight w) as [[pageParam p]|]; [|done].
    destruct (resume p r); simpl in Hi'; by destruct Hi'.
Qed.

Lemma run_inflightHasCursor baseUrl evs (w : QueryStore PostJson) :
  inflightHasCursor w → inflightHasCursor (run baseUrl evs w).
Proof.
  unfold run. revert w.
  induction evs as [|ev evs IH]; intros w Hw; [done|].
  simpl. by apply IH, step_inflightHasCursor.
Qed.

(** Once the last page has no cursor and nothing is in flight, no event
    changes anything but the recorded error. *)
Lemma step_final baseUrl (w : QueryStore PostJson) ev :
  lastPageOf w ≫= next = None → inflight w = None →
  cached (step baseUrl w ev) = cached w
  ∧ inflight (step baseUrl w ev) = None
  ∧ network (step baseUrl w ev) = network w.
Proof.
  intros Hc Hi.
  destruct (step_cases baseUrl w ev)
    as [ -> |[(c & Hc' & ->)|[(r & Hi' & ->)| -> ]]]; [done|..|done].
  - congruence.
  - rewrite Hi in Hi'. by destruct Hi'.
Qed.

Lemma run_final baseUrl evs (w : QueryStore PostJson) :
  lastPageOf w ≫= next = None → inflight w = None →
  cached (run baseUrl evs w) = cached w
  ∧ inflight (run baseUrl evs w) = None
  ∧ network (run baseUrl evs w) = network w.
Proof.
  unfold run. revert w.
  induction evs as [|ev evs IH]; intros w Hc Hi; [done|].
  simpl foldl.
  destruct (step_final baseUrl w ev Hc Hi) as (Hd & Hi' & Hn).
  destruct (IH (step baseUrl w ev)) as (Hd' & Hi'' & Hn').
  - unfold lastPageOf in *. by rewrite Hd.
  - done.
  - by rewrite Hd', Hi'', Hn'.
Qed.

(** The first cached page stays the one the page context supplied. *)
Lemma step_first_page baseUrl (w : QueryStore PostJson) ev first rest params :
  cached w = Some (mkData (first :: rest) params) →
  ∃ rest' params',
    cached (step baseUrl w ev) = Some (mkData (first :: rest') params').
Proof.
  intros Hd.
  destruct (step_cases baseUrl w ev)
    as [ -> |[(c & Hc & ->)|[(r & Hi & ->)| -> ]]]; [by eauto..| |by eauto].
  unfold settle. destruct (inflight w) as [[pageParam p]|]; [|by eauto].
  destruct (resume p r) as [page|e]; [|by eauto].
  rewrite Hd. simpl. by eauto.
Qed.

Lemma run_first_page baseUrl evs (w : QueryStore PostJson) first rest params :
  cached w = Some (mkData (first :: rest) params) →
  ∃ rest' params',
    cached (run baseUrl evs w) = Some (mkData (first :: rest') params').
Proof.
  unfold run. revert w rest params.
  induction evs as [|ev evs IH]; intros w rest params Hd; [by eauto|].
  simpl foldl.
  destruct (step_first_page baseUrl w ev _ _ _ Hd) as (rest' & params' & Hd').
  by eapply IH.
Qed.



Lemma mergedItems_cons page ps :
  mergedItems jsonToPost (page :: ps)
    = ((λ p, PostItem (jsonToPost p)) <$> posts page)
      ++ mergedItems jsonToPost ps.
Proof. unfold mergedItems. simpl. by rewrite fmap_app. Qed.

Lemma feedItems_settled pageContext baseUrl w ps params :
  cached w = Some (mkData ps params) → inflight w = None →
  feedItems jsonToPost postsPerFeedPage pageContext (feedQuery baseUrl w)
    = Normal (mergedItems jsonToPost ps).
Proof.
  intros Hd Hi. rewrite feedItems_idle by (simpl; by rewrite Hi).
  unfold shownPosts. simpl. by rewrite Hd.
Qed.

Lemma step_failed baseUrl (w : QueryStore PostJson) ev :
  inflight w = None → is_Some (failure w) → ev ≠ ErrorCleared →
  step baseUrl w ev = w.
Proof.
  intros Hi He Hev. destruct ev as [view|r|]; [| |done].
  - by apply step_viewport_noop, requestNextIfNeeded_failed.
  - by apply settle_idle.
Qed.

Lemma run_failed baseUrl evs (w : QueryStore PostJson) :
  inflight w = None → is_Some (failure w) → ErrorCleared ∉ evs →
  run baseUrl evs w = w.
Proof.
  intros Hi He. unfold run.
  induction evs as [|ev evs IH]; intros Hevs; [done|].
  simpl foldl. rewrite step_failed; [|done..|].
  - apply IH. intros Hin. apply Hevs. by right.
  - intros ->. apply Hevs. by left.
Qed.

(** C1: after the pages [fetched] have arrived one after the other, the
    list the hook returns is the concatenation of the items of the page
    context's page and of the fetched pages, in that order; and whatever
    has happened to the feed, the cached pages begin with the page
    context's page, whose items therefore come first. *)
Theorem merged_items_are_pages_in_order pageContext config :
  let baseUrl := resolveBaseUrl feedMetaDirectory pageContext config in
  (∀ fetched view,
     chained (feedMetadata pageContext :: fetched) →
     returnedItems
       (useInfiniteFeed jsonToPost postsPerFeedPage feedMetaDirectory
          pageContext config view
          (foldl (fetchPage baseUrl) (initialStore pageContext) fetched))
     = Normal (((λ p, PostItem (jsonToPost p))
                  <$> posts (feedMetadata pageContext))
               ++ ((λ p, PostItem (jsonToPost p))
                     <$> concat (posts <$> fetched))))
  ∧ (∀ evs view, ∃ fetched params,
       cached (run baseUrl evs (initialStore pageContext))
         = Some (mkData (feedMetadata pageContext :: fetched) params)
       ∧ (inflight (run baseUrl evs (initialStore pageContext)) = None →
          returnedItems
            (useInfiniteFeed jsonToPost postsPerFeedPage feedMetaDirectory
               pageContext config view
               (run baseUrl evs (initialStore pageContext)))
          = Normal (((λ p, PostItem (jsonToPost p))
                       <$> posts (feedMetadata pageContext))
                    ++ ((λ p, PostItem (jsonToPost p))
                          <$> concat (posts <$> fetched))))).
Proof.
  intros baseUrl. split.
  - intros fetched view Hch.
    destruct (fetchPages_store pageContext baseUrl fetched Hch)
      as [params Hw].
    unfold useInfiniteFeed. cbn [returnedItems]. rewrite Hw.
    erewrite feedItems_settled by done. by rewrite mergedItems_cons.
  - intros evs view.
    destruct (run_first_page baseUrl evs (initialStore pageContext)
                (feedMetadata pageContext) [] [Some (pageIndex pageContext)])
      as (fetched & params & Hd); [done|].
    exists fetched, params. split; [done|]. intros Hi.
    unfold useInfiniteFeed. cbn [returnedItems].
    erewrite feedItems_settled by done. by rewrite mergedItems_cons.
Qed.

(** C5: when the request that [requestNextIfNeeded] sent fails, the error
    is recorded and the cached pages are those from before the request,
    so the hook returns the same list as before it; from then on the
    viewport and the network change nothing until the error is cleared,
    after which the page is requested again. *)
Theorem failed_fetch_stops_progress pageContext baseUrl w r :
  wantsNext (feedQuery baseUrl w) →
  fetchFails r →
  is_Some (failure (settle r (requestNextIfNeeded baseUrl w)))
  ∧ cached (settle r (requestNextIfNeeded baseUrl w)) = cached w
  ∧ inflight (settle r (requestNextIfNeeded baseUrl w)) = None
  ∧ feedItems jsonToPost postsPerFeedPage pageContext
      (feedQuery baseUrl (settle r (requestNextIfNeeded baseUrl w)))
    = feedItems jsonToPost postsPerFeedPage pageContext (feedQuery baseUrl w)
  ∧ requestNextIfNeeded baseUrl (settle r (requestNextIfNeeded baseUrl w))
    = settle r (requestNextIfNeeded baseUrl w)
  ∧ (∀ evs, ErrorCleared ∉ evs →
       run baseUrl evs (settle r (requestNextIfNeeded baseUrl w))
         = settle r (requestNextIfNeeded baseUrl w))
  ∧ network (requestNextIfNeeded baseUrl
               (clearError (settle r (requestNextIfNeeded baseUrl w))))
    ≠ network (settle r (requestNextIfNeeded baseUrl w)).
Proof.
  intros Hq Hr.
  destruct (requestNextIfNeeded_effect _ _ Hq) as (c & Hc & ->).
  destruct (settle_startFetch_fails baseUrl (Some c) r w Hr) as [e ->].
  apply wantsNext_feedQuery in Hq as (_ & Hi & He).
  split_and!; cbn [failure cached inflight].
  - by eexists.
  - done.
  - done.
  - apply feedItems_ext; simpl; [done|]. by rewrite Hi.
  - apply requestNextIfNeeded_failed. by eexists.
  - intros evs Hevs. apply run_failed; [done| by eexists |done].
  - rewrite (requestNextIfNeeded_wanted _ _ c) by done.
    cbn [network startFetch clearError]. intros Heq%(f_equal length).
    rewrite !length_app in Heq. simpl in Heq. lia.
Qed.

(** C6: once the last cached page of a feed has no cursor, whatever
    happens next (viewport notifications, answers from the network, the
    error being cleared) sends no request, leaves the cached pages alone
    and leaves [requestNextIfNeeded] without effect. *)
Theorem last_page_is_final pageContext baseUrl evs evs' :
  lastPageOf (run baseUrl evs (initialStore pageContext)) ≫= next = None →
  cached (run baseUrl evs' (run baseUrl evs (initialStore pageContext)))
    = cached (run baseUrl evs (initialStore pageContext))
  ∧ network (run baseUrl evs' (run baseUrl evs (initialStore pageContext)))
    = network (run baseUrl evs (initialStore pageContext))
  ∧ inflight (run baseUrl evs' (run baseUrl evs (initialStore pageContext)))
    = None
  ∧ ¬ wantsNext (feedQuery baseUrl
        (run baseUrl evs' (run baseUrl evs (initialStore pageContext))))
  ∧ requestNextIfNeeded baseUrl
      (run baseUrl evs' (run baseUrl evs (initialStore pageContext)))
    = run baseUrl evs' (run baseUrl evs (initialStore pageContext)).
Proof.
  intros Hc. set (w := run baseUrl evs (initialStore pageContext)) in *.
  assert (inflight w = None) as Hi.
  { apply eq_None_not_Some. intros Hi.
    apply (run_inflightHasCursor baseUrl evs (initialStore pageContext)) in Hi.
    - fold w in Hi. rewrite Hc in Hi. by destruct Hi.
    - by intros []. }
  destruct (run_final baseUrl evs' w Hc Hi) as (Hd & Hi' & Hn).
  assert (lastPageOf (run baseUrl evs' w) ≫= next = None) as Hc'
    by (unfold lastPageOf in *; by rewrite Hd).
  split_and!; [done..| |].
  - rewrite wantsNext_feedQuery, Hc'. by intros ([] & _).
  - by apply requestNextIfNeeded_no_cursor.
Qed.

(** C7 (amended): the handler requests [baseUrl-cursor.json]; it throws
    its own "Failed to fetch" error exactly when the response is not a
    success, it fails besides when the request itself fails or the body
    of a success response does not parse, and it returns the parsed page
    otherwise. The cursor of a request is the [next] of the last cached
    page. *)
Theorem fetchHandler_protocol baseUrl c :
  requested (fetchHandler (PostJson := PostJson) baseUrl (Some c))
    = baseUrl +:+ "-" +:+ pretty c +:+ ".json"
  ∧ (∀ r,
       resume (fetchHandler (PostJson := PostJson) baseUrl (Some c)) r
         = Throw (Error ("Failed to fetch "
                         +:+ baseUrl +:+ "-" +:+ pretty c +:+ ".json"))
       ↔ ∃ json, r = Response false json)
  ∧ (∀ r,
       (∃ e, resume (fetchHandler (PostJson := PostJson) baseUrl (Some c)) r
             = Throw e)
       ↔ r = NetworkFailure
         ∨ (∃ json, r = Response false json)
         ∨ r = Response true None)
  ∧ (∀ page : FeedMetadataJson PostJson,
       resume (fetchHandler baseUrl (Some c)) (Response true (Some page))
         = Normal page)
  ∧ (∀ (w : QueryStore PostJson) lastPage,
       lastPageOf w = Some lastPage → next lastPage = Some c →
       inflight w = None → failure w = None →
       network (requestNextIfNeeded baseUrl w)
         = network w ++ [baseUrl +:+ "-" +:+ pretty c +:+ ".json"]).
Proof.
  split_and!.
  - done.
  - intros [|[] [page|]]; simpl; split; try done; try by eexists.
    all: by intros [? ?].
  - intros [|[] [page|]]; simpl; split; try (intros [? ?]; done);
      try (intros _; by eexists); try (by intros; eauto).
    intros [?|[[? ?]|?]]; done.
  - done.
  - intros w lastPage Hl Hc Hi He.
    rewrite (requestNextIfNeeded_wanted _ _ c); [done| |done..].
    by rewrite Hl.
Qed.

(** The guard of [loadNext] is evaluated on the query result of the
    render that created the closure: called twice on one and the same
    result, it calls [fetchNextPage] twice. The properties above are
    about calls that each read the result of the current render. *)
Remark loadNext_reads_render_result baseUrl (w : QueryStore PostJson) :
  wantsNext (feedQuery baseUrl w) →
  ∃ url,
    network (loadNext (feedQuery baseUrl w)
               (loadNext (feedQuery baseUrl w) w))
      = network w ++ [url; url].
Proof.
  intros Hq. rewrite (loadNext_wanted _ Hq). simpl.
  apply wantsNext_feedQuery in Hq as ([c Hc] & _ & _).
  exists (fetchUrl baseUrl (Some c)).
  rewrite (observerFetchNextPage_cursor _ w c) by exact Hc.
  rewrite (observerFetchNextPage_cursor _ _ c) by exact Hc.
  simpl. by rewrite <-(assoc_L (++)).
Qed.

End Properties.

(** ** The properties at the concrete feeds *)

Example resolveBaseUrl_index :
  resolveBaseUrl "/feed" twoPostContext rootConfig = "/feed/index".
Proof. reflexivity. Qed.

Example resolveBaseUrl_tag :
  resolveBaseUrl "/feed" (mkContext "tag" (Some "rocq") 0 lastPage) rootConfig
    = "/feed/tag-rocq".
Proof. reflexivity. Qed.

Example spec_scenario_placeholders :
  returnedItems (useInfiniteFeed id 5 "/feed" twoPostContext rootConfig
                   inView twoPostFetching)
    = Normal [PostItem "A"; PostItem "B";
              PlaceholderItem (mkPlaceholder true "next-0");
              PlaceholderItem (mkPlaceholder true "next-1")].
Proof. reflexivity. Qed.

Example generatePostPlaceholders_negative :
  generatePostPlaceholders 5 "next" (Some (-1)) = Throw RangeError.
Proof. reflexivity. Qed.

(** Counterexample to C3 as stated: with a [nextCount] of zero the list
    shown while the next page loads has seven entries, the two posts and
    five default placeholders, not two plus zero. *)
Lemma zero_count_placeholders_not_nextCount :
  isFetchingNextPage (feedQuery "/feed/index" zeroCountFetching) = true
  ∧ returnedItems (useInfiniteFeed id 5 "/feed" zeroCountContext rootConfig
                     inView zeroCountFetching)
    = Normal [PostItem "A"; PostItem "B";
              PlaceholderItem (mkPlaceholder true "next-0");
              PlaceholderItem (mkPlaceholder true "next-1");
              PlaceholderItem (mkPlaceholder true "next-2");
              PlaceholderItem (mkPlaceholder true "next-3");
              PlaceholderItem (mkPlaceholder true "next-4")]
  ∧ ¬ ∃ items,
        returnedItems (useInfiniteFeed id 5 "/feed" zeroCountContext
                         rootConfig inView zeroCountFetching) = Normal items
        ∧ length items
          = (length (posts (feedMetadata zeroCountContext)) + Z.to_nat 0)%nat.
Proof.
  split_and!.
  - reflexivity.
  - reflexivity.
  - intros (items & Hitems & Hlen). vm_compute in Hitems.
    injection Hitems as <-. vm_compute in Hlen. discriminate.
Qed.

Lemma placeholders_while_fetching_witness :
  ∃ phs : list PlaceholderPost,
    feedItems id 5 twoPostContext (feedQuery "/feed/index" twoPostFetching)
      = Normal (mergedItems id [feedMetadata twoPostContext]
                ++ (PlaceholderItem <$> phs))
    ∧ length phs = 2%nat.
Proof.
  assert (0 ≤ 2 < 2 ^ 32) as Hcount by lia.
  destruct (placeholders_while_fetching id 5 twoPostContext
              (feedQuery "/feed/index" twoPostFetching)
              (mkData [feedMetadata twoPostContext] [Some 0])
              eq_refl eq_refl Hcount)
    as (phs & Hitems & Hlen & _).
  exists phs. split; [exact Hitems | exact Hlen].
Defined.

Lemma zero_count_falls_back_to_default_witness :
  ∃ phs,
    generatePostPlaceholders 5 "next" (Some 0) = Normal phs
    ∧ Z.of_nat (length phs) = 5.
Proof.
  apply (zero_count_falls_back_to_default (Post := string) id 5); lia.
Defined.

Lemma feedItems_without_data_witness :
  feedItems id 5 twoPostContext noData = Normal [PostItem "A"; PostItem "B"].
Proof.
  apply (feedItems_without_data id 5 twoPostContext noData eq_refl).
  reflexivity.
Defined.

(** C4 (defect): the guard of [loadNext] reads the query result of the
    render that created the closure, not the state of the fetch. On the
    first render of the two-post feed, with the element in view, the check
    of the body followed by one scroll event handled by that render's
    listener, or two scroll events handled by it, each send the request
    for the next page twice: the second call is not a no-op. *)
Lemma stale_listener_sends_two_requests :
  network (onScroll firstRender inView
             (rendered firstRender (initialStore twoPostContext)))
    = ["/feed/index-1.json"; "/feed/index-1.json"]
  ∧ network (onScroll firstRender inView
               (onScroll firstRender inView (initialStore twoPostContext)))
    = ["/feed/index-1.json"; "/feed/index-1.json"]
  ∧ is_Some (inflight (rendered firstRender (initialStore twoPostContext)))
  ∧ onScroll firstRender inView
      (rendered firstRender (initialStore twoPostContext))
    ≠ rendered firstRender (initialStore twoPostContext).
Proof.
  split_and!.
  - reflexivity.
  - reflexivity.
  - by eexists.
  - intros Heq. apply (f_equal network) in Heq. vm_compute in Heq.
    discriminate Heq.
Qed.



Lemma at_most_one_fetch_in_flight_witness :
  requestNextIfNeeded "/feed/index" twoPostFetching = twoPostFetching
  ∧ network (requestNextIfNeeded "/feed/index" twoPostFetching)
    = ["/feed/index-1.json"].
Proof.
  assert (is_Some (inflight twoPostFetching)) as Hi by (by eexists).
  destruct (at_most_one_fetch_in_flight "/feed/index" twoPostFetching)
    as (Hnoop & _).
  destruct (Hnoop Hi) as (Heq & _).
  split; [exact Heq | rewrite Heq; reflexivity].
Defined.

(** Counterexample to C7 as stated: a success response whose body does not
    parse makes the handler fail, so failing is not equivalent to the
    response being a non-success. *)
Lemma success_response_can_fail :
  resume (fetchHandler (PostJson := string) "/feed/index" (Some 1))
         (Response true None)
    = Throw SyntaxError
  ∧ ¬ ∀ r,
        (∃ e, resume (fetchHandler (PostJson := string) "/feed/index" (Some 1)) r
              = Throw e)
        ↔ ∃ json, r = Response false json.
Proof.
  split; [reflexivity|].
  intros Hiff. destruct (proj1 (Hiff (Response true None))) as [json Hjson].
  - by exists SyntaxError.
  - discriminate Hjson.
Qed.

Lemma merged_items_are_pages_in_order_witness :
  returnedItems
    (useInfiniteFeed id 5 "/feed" twoPostContext rootConfig inView
       (foldl (fetchPage "/feed/index") (initialStore twoPostContext)
              [lastPage]))
  = Normal [PostItem "A"; PostItem "B"; PostItem "C"].
Proof.
  assert (chained (feedMetadata twoPostContext :: [lastPage])) as Hch.
  { intros [|[|i]] p Hp Hlt; simpl in *; [|lia..].
    injection Hp as <-. by eexists. }
  exact (proj1 (merged_items_are_pages_in_order id 5 "/feed" twoPostContext
                  rootConfig) [lastPage] inView Hch).
Defined.


Lemma failed_fetch_stops_progress_witness :
  requestNextIfNeeded "/feed/index"
    (settle (Response false None) twoPostFetching)
  = settle (Response false None) twoPostFetching.
Proof.
  assert (wantsNext (feedQuery "/feed/index" (initialStore twoPostContext)))
    as Hq by (split_and!; reflexivity).
  assert (fetchFails (Response (Page := FeedMetadataJson string) false None))
    as Hr by (intros page; discriminate).
  destruct (failed_fetch_stops_progress id 5 twoPostContext "/feed/index"
              (initialStore twoPostContext) (Response false None) Hq Hr)
    as (_ & _ & _ & _ & Hnoop & _).
  exact Hnoop.
Defined.

Lemma last_page_is_final_witness :
  network
    (run "/feed/index"
       [ViewportChanged inView; ErrorCleared; ViewportChanged inView;
        Settled NetworkFailure]
       (run "/feed/index"
          [ViewportChanged inView; Settled (Response true (Some lastPage))]
          (initialStore twoPostContext)))
  = network
      (run "/feed/index"
         [ViewportChanged inView; Settled (Response true (Some lastPage))]
         (initialStore twoPostContext)).
Proof.
  destruct (last_page_is_final twoPostContext "/feed/index"
              [ViewportChanged inView; Settled (Response true (Some lastPage))]
              [ViewportChanged inView; ErrorCleared; ViewportChanged inView;
               Settled NetworkFailure])
    as (_ & Hnet & _).
  - reflexivity.
  - exact Hnet.
Defined.

Lemma fetchHandler_protocol_witness :
  network (requestNextIfNeeded "/feed/index" (initialStore twoPostContext))
    = ["/feed/index-1.json"].
Proof.
  destruct (fetchHandler_protocol (PostJson := string) "/feed/index" 1)
    as (_ & _ & _ & _ & Hcursor).
  exact (Hcursor (initialStore twoPostContext) (feedMetadata twoPostContext)
           eq_refl eq_refl eq_refl eq_refl).
Defined.

Lemma checkScrollState_loads_iff_inViewport_witness :
  invocations inView = 1%nat
  ∧ invocations belowFold = 0%nat
  ∧ invocations unattached = 0%nat.
Proof.
  destruct (checkScrollState_loads_iff_inViewport (PostJson := string))
    as (Hcount & _).
  split_and!.
  - apply (Hcount inView). exists (480 # 1)%Q. split; [reflexivity|].
    unfold Qle. simpl. lia.
  - apply (Hcount belowFold). intros (bottom & [= <-] & Hle).
    unfold Qle in Hle. simpl in Hle. lia.
  - apply (Hcount unattached). intros (bottom & Hc & _). discriminate Hc.
Defined.

(** ** Further properties of the components *)

#[local] Set Warnings "-clear-no-such-hyp".

(** *** The share bar *)

Lemma pushIfTruthy_elem handle handles h :
  h ∈ Share.pushIfTruthy handle handles
  ↔ h ∈ handles ∨ (h ≠ "" ∧ handle = Some h).
Proof.
  unfold Share.pushIfTruthy. destruct handle as [h'|].
  - case_bool_decide as Hempty.
    + split; [by left|]. intros [?|[? [= ->]]]; done.
    + rewrite elem_of_app, list_elem_of_singleton. split.
      * intros [?| -> ]; [by left|by right].
      * intros [?|[? [= ->]]]; [by left|by right].
  - split; [by left|]. by intros [?|[? ?]].
Qed.

(** X1: the related handles are exactly the non-empty handles the
    configuration names, the user's before the site's: both when both are
    configured, the one that is configured when the other is absent or
    empty, and none when both are absent or empty. *)
Theorem related_handles_are_configured_handles (config : Share.SiteConfig) :
  (∀ h, h ∈ Share.generateRelatedTwitterHandles config
        ↔ h ≠ "" ∧ (Share.userTwitterHandle config = Some h
                    ∨ Share.siteTwitterHandle config = Some h))
  ∧ (length (Share.generateRelatedTwitterHandles config) ≤ 2)%nat
  ∧ (∀ u s,
       Share.userTwitterHandle config = Some u → u ≠ "" →
       Share.siteTwitterHandle config = Some s → s ≠ "" →
       Share.generateRelatedTwitterHandles config = [u; s])
  ∧ (∀ u,
       Share.userTwitterHandle config = Some u → u ≠ "" →
       Share.siteTwitterHandle config = None
       ∨ Share.siteTwitterHandle config = Some "" →
       Share.generateRelatedTwitterHandles config = [u])
  ∧ (∀ s,
       Share.userTwitterHandle config = None
       ∨ Share.userTwitterHandle config = Some "" →
       Share.siteTwitterHandle config = Some s → s ≠ "" →
       Share.generateRelatedTwitterHandles config = [s])
  ∧ (Share.generateRelatedTwitterHandles config = []
     ↔ (Share.userTwitterHandle config = None
        ∨ Share.userTwitterHandle config = Some "")
       ∧ (Share.siteTwitterHandle config = None
          ∨ Share.siteTwitterHandle config = Some "")).
Proof.
  destruct config as [user site name]. split_and!.
  - intros h. unfold Share.generateRelatedTwitterHandles.
    rewrite !pushIfTruthy_elem, elem_of_nil. simpl. naive_solver.
  - unfold Share.generateRelatedTwitterHandles, Share.pushIfTruthy. simpl.
    destruct user as [u|], site as [s|]; repeat case_bool_decide; simpl; lia.
  - simpl. intros u s -> Hu -> Hs.
    unfold Share.generateRelatedTwitterHandles, Share.pushIfTruthy. simpl.
    by rewrite !bool_decide_eq_false_2 by done.
  - simpl. intros u -> Hu Hsite.
    unfold Share.generateRelatedTwitterHandles, Share.pushIfTruthy. simpl.
    rewrite bool_decide_eq_false_2 by done.
    by destruct Hsite as [ -> | -> ].
  - simpl. intros s Huser -> Hs.
    unfold Share.generateRelatedTwitterHandles, Share.pushIfTruthy. simpl.
    rewrite (bool_decide_eq_false_2 (s = "")) by done.
    by destruct Huser as [ -> | -> ].
  - unfold Share.generateRelatedTwitterHandles, Share.pushIfTruthy. simpl.
    destruct user as [u|], site as [s|]; repeat case_bool_decide;
      simplify_eq/=; naive_solver.
Qed.

Lemma share_handle_snoc post evs ev :
  foldl (Share.handle post) Share.initialState (evs ++ [ev])
    = Share.handle post (foldl (Share.handle post) Share.initialState evs) ev.
Proof. apply foldl_snoc. Qed.

(** X2: after any sequence of clicks on the link button and ended
    animations, the copy notification is rendered exactly when the last
    event was a click, and the clipboard has been asked to hold the post's
    url once per click and nothing else. *)
Theorem share_notification_follows_last_event (post : Share.Post)
    (config : Share.SiteConfig) (evs : list Share.Event) :
  (Share.showLinkNotification
     (foldl (Share.handle post) Share.initialState evs) = true
   ↔ last evs = Some Share.LinkButtonClicked)
  ∧ (Share.LinkCopyNotification
       ∈ Share.PostShare post config
           (foldl (Share.handle post) Share.initialState evs)
     ↔ last evs = Some Share.LinkButtonClicked)
  ∧ Share.clipboardWrites (foldl (Share.handle post) Share.initialState evs)
    = replicate (length (filter (λ ev, Share.isClick ev = true) evs))
                (Share.url post).
Proof.
  assert (Share.showLinkNotification
            (foldl (Share.handle post) Share.initialState evs) = true
          ↔ last evs = Some Share.LinkButtonClicked) as Hshow.
  { destruct evs as [|ev evs _] using rev_ind; [done|].
    rewrite share_handle_snoc, last_snoc.
    destruct ev; simpl; [done|].
    destruct (foldl _ _ _) as [[] writes]; simpl; by split. }
  split_and!.
  - done.
  - rewrite <-Hshow. unfold Share.PostShare.
    rewrite elem_of_app. destruct (Share.showLinkNotification _).
    + split; [done|]. intros _. right. by apply list_elem_of_singleton.
    + split; [|done]. rewrite elem_of_nil.
      intros [Hin|[]]. repeat (apply elem_of_cons in Hin as [?|Hin]; [done|]).
      by apply elem_of_nil in Hin.
  - clear Hshow. induction evs as [|ev evs IH] using rev_ind; [done|].
    rewrite share_handle_snoc, filter_app, length_app.
    destruct ev; cbn [Share.handle Share.clipboardWrites].
    + rewrite IH. cbn. rewrite Nat.add_1_r. by rewrite replicate_S_end.
    + cbn. rewrite Nat.add_0_r, <-IH.
      by destruct (Share.showLinkNotification _).
Qed.

(** *** The post intro *)

Section IntroProperties.

Context {ImageDataLike IGatsbyImageData : Type}.
Variable getImage : ImageDataLike → option IGatsbyImageData.

(** X3: the intro renders exactly when the post has a cover image that the
    image plugin resolves; it then shows the post's title, excerpt and alt
    text with the resolved image. Without a cover image it throws the
    "Cannot render" error, with an unresolvable one the "failed to resolve"
    error, and it throws nothing else. *)
Theorem PostIntro_renders_iff_cover_resolves
    (post : Intro.IPost ImageDataLike) :
  (completes (Intro.PostIntro getImage post)
   ↔ ∃ img imgData,
       Intro.coverImg post = Some img ∧ getImage img = Some imgData)
  ∧ (∀ r, Intro.PostIntro getImage post = Normal r →
       Intro.heading r = Intro.title post
       ∧ Intro.body r = Intro.excerpt post
       ∧ Intro.postInfo r = post
       ∧ Intro.coverAlt r = Intro.coverImageAlt post
       ∧ ∃ img, Intro.coverImg post = Some img
                ∧ getImage img = Some (Intro.coverImage r))
  ∧ (Intro.PostIntro getImage post
       = Throw (Error
           "[PostIntro] Cannot render `PostIntro` without `coverImg`")
     ↔ Intro.coverImg post = None)
  ∧ (Intro.PostIntro getImage post
       = Throw (Error
           "[PostIntro] `getImage` failed to resolve `post.coverImg`")
     ↔ ∃ img, Intro.coverImg post = Some img ∧ getImage img = None)
  ∧ (∀ e, Intro.PostIntro getImage post = Throw e →
       e = Error "[PostIntro] Cannot render `PostIntro` without `coverImg`"
       ∨ e = Error
               "[PostIntro] `getImage` failed to resolve `post.coverImg`").
Proof.
  unfold Intro.PostIntro, completes.
  destruct (Intro.coverImg post) as [img|] eqn:Himg.
  - destruct (getImage img) as [imgData|] eqn:Hget.
    + split_and!.
      * split; [by eauto|by eexists].
      * intros r [= <-]. simpl. split_and!; [done..|]. by exists img.
      * done.
      * split; [done|]. intros (img' & [= <-] & Hnone). congruence.
      * done.
    + split_and!.
      * split; [by intros [? ?]|]. intros (img' & d & [= <-] & Hd). congruence.
      * done.
      * done.
      * split; [by eauto|done].
      * intros e [= <-]. by right.
  - split_and!.
    + split; [by intros [? ?]|]. by intros (? & ? & ? & _).
    + done.
    + done.
    + split; [done|]. by intros (? & ? & _).
    + intros e [= <-]. by left.
Qed.

End IntroProperties.

(** *** Resource locations *)

Lemma string_length_append (a b : string) :
  String.length (a +:+ b) = (String.length a + String.length b)%nat.
Proof. induction a as [|c a IH]; simpl; [done|]. by rewrite IH. Qed.

Lemma string_append_inj_l (t a b : string) : a +:+ t = b +:+ t → a = b.
Proof.
  revert b. induction a as [|c a IH]; intros [|c' b] Heq; simpl in Heq.
  - done.
  - apply (f_equal String.length) in Heq.
    rewrite !string_length_append in Heq. simpl in Heq. lia.
  - apply (f_equal String.length) in Heq.
    rewrite !string_length_append in Heq. simpl in Heq. lia.
  - injection Heq as -> Heq. f_equal. by apply IH.
Qed.

Section MoreFeedProperties.

Context {PostJson Post : Type}.
Variable jsonToPost : PostJson → Post.
Variable postsPerFeedPage : Z.
Variable feedMetaDirectory : string.

Implicit Types (pageContext : PageContext PostJson).
Implicit Types (w : QueryStore PostJson).

(** X4: for one feed type and one site configuration, feeds with different
    non-empty ids have different base URLs, none of which is the base URL of
    the feed without id; an empty id is treated like a missing one. *)
Theorem resolveBaseUrl_separates_feed_ids pageContext pageContext' config :
  feedType pageContext = feedType pageContext' →
  (∀ a b,
     feedId pageContext = Some a → a ≠ "" →
     feedId pageContext' = Some b → b ≠ "" →
     resolveBaseUrl feedMetaDirectory pageContext config
       = resolveBaseUrl feedMetaDirectory pageContext' config →
     a = b)
  ∧ (∀ a,
       feedId pageContext = Some a → a ≠ "" →
       feedId pageContext' = None ∨ feedId pageContext' = Some "" →
       resolveBaseUrl feedMetaDirectory pageContext config
         ≠ resolveBaseUrl feedMetaDirectory pageContext' config)
  ∧ (feedId pageContext = None → feedId pageContext' = Some "" →
     resolveBaseUrl feedMetaDirectory pageContext config
       = resolveBaseUrl feedMetaDirectory pageContext' config).
Proof.
  intros Htype. unfold resolveBaseUrl. rewrite Htype. split_and!.
  - intros a b -> Ha -> Hb Heq.
    rewrite !bool_decide_eq_false_2 in Heq by done.
    do 4 apply (inj (String.append _)) in Heq.
    by apply (inj (String.append _)) in Heq.
  - intros a -> Ha Hb Heq.
    rewrite bool_decide_eq_false_2 in Heq by done.
    do 4 apply (inj (String.append _)) in Heq.
    destruct Hb as [Hb|Hb]; rewrite Hb in Heq; simpl in Heq; done.
  - by intros -> ->.
Qed.

(** X5: the handler asks for different resources for different page
    parameters, and for page 0 when it is given none. *)
Theorem fetchHandler_separates_cursors (baseUrl : string) :
  (∀ c1 c2 : Z,
     requested (fetchHandler (PostJson := PostJson) baseUrl (Some c1))
       = requested (fetchHandler (PostJson := PostJson) baseUrl (Some c2)) →
     c1 = c2)
  ∧ requested (fetchHandler (PostJson := PostJson) baseUrl None)
    = baseUrl +:+ "-0.json".
Proof.
  split; [|done].
  intros c1 c2 Heq. simpl in Heq. unfold fetchUrl in Heq. simpl in Heq.
  do 2 apply (inj (String.append _)) in Heq.
  apply string_append_inj_l in Heq. by apply (inj pretty).
Qed.

(** *** The merged list *)


End MoreFeedProperties.

(** *** The life of a mounted feed *)

Section FeedTraces.

Context {PostJson Post : Type}.
Variable jsonToPost : PostJson → Post.
Variable postsPerFeedPage : Z.
Variable feedMetaDirectory : string.

Implicit Types (pageContext : PageContext PostJson).
Implicit Types (w : QueryStore PostJson).
Implicit Types (evs : list (Event PostJson)).

Lemma run_cons baseUrl ev evs w :
  run baseUrl (ev :: evs) w = run baseUrl evs (step baseUrl w ev).
Proof. done. Qed.

Lemma step_pages_grow baseUrl w ev d :
  cached w = Some d →
  ∃ more params,
    cached (step baseUrl w ev) = Some (mkData (pages d ++ more) params).
Proof.
  intros Hd.
  assert (cached w = Some (mkData (pages d ++ []) (pageParams d))) as Hsame
    by (rewrite app_nil_r; by destruct d).
  destruct (step_cases baseUrl w ev)
    as [ -> |[(c & Hc & ->)|[(r & Hi & ->)| -> ]]]; [by eauto..| |by eauto].
  unfold settle. destruct (inflight w) as [[pageParam p]|]; [|by eauto].
  destruct (resume p r) as [page|e]; [|by eauto].
  rewrite Hd. simpl. by eauto.
Qed.

Lemma run_pages_grow baseUrl evs w d :
  cached w = Some d →
  ∃ more params,
    cached (run baseUrl evs w) = Some (mkData (pages d ++ more) params).
Proof.
  revert w d. induction evs as [|ev evs IH]; intros w d Hd.
  - exists [], (pageParams d). rewrite app_nil_r. by destruct d.
  - rewrite run_cons.
    destruct (step_pages_grow baseUrl w ev d Hd) as (more & params & Hd').
    destruct (IH _ _ Hd') as (more' & params' & Hd'').
    exists (more ++ more'), params'. simpl in Hd''.
    by rewrite (assoc_L (++)).
Qed.

(** X8: whatever happens to a feed, its cached pages only grow at the end;
    so between two moments at which nothing is being fetched, the list the
    hook computes keeps every item it had, in place, and may only have
    gained items behind them. *)
Theorem merged_items_only_grow pageContext baseUrl evs w d :
  cached w = Some d →
  ∃ more params,
    cached (run baseUrl evs w) = Some (mkData (pages d ++ more) params)
    ∧ (inflight w = None → inflight (run baseUrl evs w) = None →
       feedItems jsonToPost postsPerFeedPage pageContext (feedQuery baseUrl w)
         = Normal (mergedItems jsonToPost (pages d))
       ∧ feedItems jsonToPost postsPerFeedPage pageContext
           (feedQuery baseUrl (run baseUrl evs w))
         = Normal (mergedItems jsonToPost (pages d)
                   ++ mergedItems jsonToPost more)).
Proof.
  intros Hd.
  destruct (run_pages_grow baseUrl evs w d Hd) as (more & params & Hd').
  exists more, params. split; [done|]. intros Hi Hi'. split.
  - apply (feedItems_settled _ _ _ _ _ (pages d) (pageParams d)); [|done].
    by destruct d.
  - rewrite <-mergedItems_app. by eapply feedItems_settled.
Qed.

(** X12: the loader is called at most once per check; an element whose
    bottom edge is exactly at the viewport height counts as in view, and an
    element in view stays in view when its bottom edge moves up or the
    viewport grows. *)
Theorem checkScrollState_threshold :
  (∀ view, (invocations view ≤ 1)%nat)
  ∧ (∀ h, invocations (mkViewport (Some h) h) = 1%nat)
  ∧ (∀ bottom bottom' h h',
       invocations (mkViewport (Some bottom) h) = 1%nat →
       (bottom' <= bottom)%Q → (h <= h')%Q →
       invocations (mkViewport (Some bottom') h') = 1%nat).
Proof.
  assert (∀ view, inViewport view → invocations view = 1%nat) as Hin.
  { intros view Hv. unfold invocations.
    by rewrite checkScrollState_inViewport. }
  assert (∀ view, ¬ inViewport view → invocations view = 0%nat) as Hout.
  { intros view Hv. unfold invocations.
    by rewrite checkScrollState_not_inViewport. }
  split_and!.
  - intros view. destruct (inViewport_dec view) as [Hv|Hv].
    + rewrite Hin by done. lia.
    + rewrite Hout by done. lia.
  - intros h. apply Hin. exists h. split; [done|]. apply Qle_refl.
  - intros bottom bottom' h h' Hone Hb Hh. apply Hin.
    destruct (inViewport_dec (mkViewport (Some bottom) h))
      as [(b & [= <-] & Hle)|Hv].
    + exists bottom'. split; [done|]. simpl in *.
      eapply Qle_trans; [done|]. by eapply Qle_trans.
    + rewrite Hout in Hone by done. discriminate.
Qed.

(** X13: the render whose scroll check starts the fetch still returns the
    list without placeholders, because the list is computed from the query
    result the render began with; the next render, against the entry the
    check left behind, returns the same posts followed by the
    placeholders. *)
Theorem placeholders_appear_on_next_render pageContext config view w d :
  cached w = Some d →
  wantsNext (feedQuery (resolveBaseUrl feedMetaDirectory pageContext config) w) →
  inViewport view →
  0 ≤ number_or (last (pages d) ≫= nextCount) postsPerFeedPage < 2 ^ 32 →
  returnedItems
    (useInfiniteFeed jsonToPost postsPerFeedPage feedMetaDirectory
       pageContext config view w)
    = Normal (mergedItems jsonToPost (pages d))
  ∧ is_Some (inflight
      (rendered (feedElementRef
         (useInfiniteFeed jsonToPost postsPerFeedPage feedMetaDirectory
            pageContext config view w)) w))
  ∧ returnedItems
      (useInfiniteFeed jsonToPost postsPerFeedPage feedMetaDirectory
         pageContext config view
         (rendered (feedElementRef
            (useInfiniteFeed jsonToPost postsPerFeedPage feedMetaDirectory
               pageContext config view w)) w))
    = Normal (mergedItems jsonToPost (pages d)
              ++ (PlaceholderItem
                    <$> placeholdersFor "next"
                          (Z.to_nat (number_or (last (pages d) ≫= nextCount)
                                               postsPerFeedPage)))).
Proof.
  intros Hd Hq Hv Hn.
  set (baseUrl := resolveBaseUrl feedMetaDirectory pageContext config) in *.
  assert (inflight w = None) as Hi.
  { by destruct (proj1 (wantsNext_feedQuery _ _) Hq) as (_ & ? & _). }
  assert (rendered (feedElementRef
            (useInfiniteFeed jsonToPost postsPerFeedPage feedMetaDirectory
               pageContext config view w)) w
          = requestNextIfNeeded baseUrl w) as ->.
  { unfold useInfiniteFeed. cbn [feedElementRef rendered].
    unfold useScrollContingentFetch. cbn [rendered].
    by rewrite checkScrollState_inViewport. }
  destruct (requestNextIfNeeded_effect _ _ Hq) as (c & Hc & ->).
  split_and!.
  - unfold useInfiniteFeed. cbn [returnedItems].
    apply (feedItems_settled _ _ _ _ _ (pages d) (pageParams d)); [|done].
    by destruct d.
  - by eexists.
  - unfold useInfiniteFeed. cbn [returnedItems].
    rewrite feedItems_fetching by done.
    unfold countHint, shownPosts. simpl. rewrite Hd. simpl.
    by rewrite generatePostPlaceholders_Normal by done.
Qed.

End FeedTraces.

(** ** The further properties at concrete inputs *)

Lemma related_handles_are_configured_handles_witness :
  Share.generateRelatedTwitterHandles bothHandles = ["author"; "site"].
Proof.
  destruct (related_handles_are_configured_handles bothHandles)
    as (_ & _ & Horder & _).
  apply Horder; [reflexivity|discriminate|reflexivity|discriminate].
Defined.

Example related_handles_site_only :
  Share.generateRelatedTwitterHandles
    (Share.mkConfig (Some "") (Some "site") "zito")
  = ["site"].
Proof. reflexivity. Qed.

Lemma share_notification_follows_last_event_witness :
  Share.showLinkNotification
    (foldl (Share.handle sharedPost) Share.initialState
       [Share.LinkButtonClicked; Share.NotificationAnimationEnded;
        Share.LinkButtonClicked]) = true.
Proof.
  destruct (share_notification_follows_last_event sharedPost bothHandles
              [Share.LinkButtonClicked; Share.NotificationAnimationEnded;
               Share.LinkButtonClicked])
    as (Hshow & _).
  apply Hshow. reflexivity.
Defined.

Lemma PostIntro_renders_iff_cover_resolves_witness :
  completes (Intro.PostIntro resolveCover coveredPost).
Proof.
  destruct (PostIntro_renders_iff_cover_resolves resolveCover coveredPost)
    as (Hrenders & _).
  apply Hrenders. exists "cover.png", 42%nat. split; reflexivity.
Defined.

Lemma resolveBaseUrl_separates_feed_ids_witness :
  resolveBaseUrl "/feed" (tagContext "rocq") rootConfig
    ≠ resolveBaseUrl "/feed" (mkContext "tag" None 0 lastPage) rootConfig.
Proof.
  destruct (resolveBaseUrl_separates_feed_ids "/feed" (tagContext "rocq")
              (mkContext "tag" None 0 lastPage) rootConfig eq_refl)
    as (_ & Hnone & _).
  apply (Hnone "rocq"); [reflexivity|discriminate|left; reflexivity].
Defined.

Lemma fetchHandler_separates_cursors_witness :
  (3 : Z) = 3
  ∧ requested (fetchHandler (PostJson := string) "/feed/index" None)
    = "/feed/index-0.json".
Proof.
  destruct (fetchHandler_separates_cursors (PostJson := string) "/feed/index")
    as (Hinj & Hzero).
  split; [apply Hinj; reflexivity | exact Hzero].
Defined.


Lemma merged_items_only_grow_witness :
  ∃ more params,
    cached (run "/feed/index"
              [ViewportChanged inView; Settled (Response true (Some lastPage))]
              (initialStore twoPostContext))
    = Some (mkData ([feedMetadata twoPostContext] ++ more) params).
Proof.
  destruct (merged_items_only_grow id 5 twoPostContext "/feed/index"
              [ViewportChanged inView; Settled (Response true (Some lastPage))]
              (initialStore twoPostContext)
              (mkData [feedMetadata twoPostContext] [Some 0]) eq_refl)
    as (more & params & Hcached & _).
  exists more, params. exact Hcached.
Defined.

Lemma checkScrollState_threshold_witness :
  invocations (mkViewport (Some (400 # 1)%Q) (700 # 1)%Q) = 1%nat.
Proof.
  destruct checkScrollState_threshold as (_ & _ & Hmono).
  apply (Hmono (480 # 1)%Q (400 # 1)%Q (600 # 1)%Q (700 # 1)%Q).
  - reflexivity.
  - unfold Qle. simpl. lia.
  - unfold Qle. simpl. lia.
Defined.

Lemma placeholders_appear_on_next_render_witness :
  returnedItems
    (useInfiniteFeed id 5 "/feed" twoPostContext rootConfig inView
       (initialStore twoPostContext))
  = Normal [PostItem "A"; PostItem "B"].
Proof.
  assert (wantsNext
            (feedQuery (resolveBaseUrl "/feed" twoPostContext rootConfig)
                       (initialStore twoPostContext))) as Hq
    by (split_and!; reflexivity).
  assert (inViewport inView) as Hv.
  { exists (480 # 1)%Q. split; [reflexivity|]. unfold Qle. simpl. lia. }
  assert (0 ≤ 2 < 2 ^ 32) as Hn by lia.
  destruct (placeholders_appear_on_next_render id 5 "/feed" twoPostContext
              rootConfig inView (initialStore twoPostContext)
              (mkData [feedMetadata twoPostContext] [Some 0])
              eq_refl Hq Hv Hn)
    as (Hfirst & _).
  exact Hfirst.
Defined.
